(** * Typix: stroke capture, command log and path smoothing

    A shallow embedding of the drawing core of the Typix application:
    - [src/types/*.ts]: the data model;
    - [src/contexts/CanvasContext.tsx]: [canvasReducer] and the helpers the
      provider exports ([startStroke], [continueStroke], [endStroke],
      [clearCanvas], [undo]);
    - [src/contexts/ToolContext.tsx]: [toolReducer];
    - [src/components/Canvas.tsx]: the pan-responder callbacks;
    - [src/modules/canvas/bezierUtils.ts]: [getControlPoints],
      [simplifyPath] and [createSmoothPath]. *)

From Stdlib Require Import String List Bool Arith Lia ZArith QArith.
From Stdlib Require Import PrimFloat Uint63 SpecFloat FloatOps FloatAxioms.
Import ListNotations.
Close Scope Q_scope.

Set Implicit Arguments.

(** ** JavaScript numbers

    The program computes on JavaScript [number]s with [+], [-], [/], [>=]
    and integer literals.  The development is generic in the arithmetic, so
    every result holds both for IEEE binary64 (what a JavaScript engine
    runs) and for exact rational arithmetic. *)

Class Number (num : Type) : Type := {
  lit : Z -> num;
  add : num -> num -> num;
  sub : num -> num -> num;
  div : num -> num -> num;
  geb : num -> num -> bool
}.

Declare Scope js_scope.
Delimit Scope js_scope with js.
Notation "a + b" := (add a b) : js_scope.
Notation "a - b" := (sub a b) : js_scope.
Notation "a / b" := (div a b) : js_scope.
Notation "a >= b" := (geb a b) : js_scope.

(** IEEE 754 binary64, the arithmetic of the engine.  [a >= b] is [b <= a],
    false as soon as one side is NaN. *)
Definition float_lit (z : Z) : float :=
  match z with
  | Zneg p => PrimFloat.opp (PrimFloat.of_uint63 (Uint63.of_Z (Zpos p)))
  | _ => PrimFloat.of_uint63 (Uint63.of_Z z)
  end.

#[export] Instance float64 : Number float := {
  lit := float_lit;
  add := PrimFloat.add;
  sub := PrimFloat.sub;
  div := PrimFloat.div;
  geb := fun a b => PrimFloat.leb b a
}.

(** Exact arithmetic over the rationals. *)
#[export] Instance exact : Number Q := {
  lit := inject_Z;
  add := Qplus;
  sub := Qminus;
  div := Qdiv;
  geb := fun a b => Qle_bool b a
}.

(** ** Objects and identity

    [simplifyPath] compares two array elements with [!==], which on objects
    is identity, not structure.  Where that matters an array of points is a
    list of references, read through the store that maps each reference to
    the fields of its object (the program never mutates a point). *)

Definition Reference : Type := nat.

(** [a !== b] on two objects. *)
Definition strict_neq (a b : Reference) : bool := negb (Nat.eqb a b).

(** ** Data model *)

(** [ToolType] of [src/types/tools.types.ts] and the [type] tag of a
    [DrawCommand] in [src/types/canvas.types.ts]. *)
Inductive ToolType : Type := pen | eraser | selector.

Inductive CommandType : Type := stroke | erase | clear.

Section DataModel.

Variable num : Type.

(** [src/types/app.types.ts] *)
Record RGBColor : Type := { r : num; g : num; b : num; a : option num }.

Record Point : Type := { x : num; y : num; pressure : option num }.

(** [src/types/tools.types.ts] *)
Record ToolSettings : Type := {
  tool_type : ToolType;
  tool_color : RGBColor;
  size : num;
  tool_opacity : num
}.

Inductive ToolAction : Type :=
| SET_TOOL (tool : ToolType)
| SET_COLOR (color : RGBColor)
| SET_SIZE (size : num)
| SET_OPACITY (opacity : num).

(** [src/types/canvas.types.ts] *)
Record StrokeStyle : Type := {
  color : RGBColor;
  width : num;
  opacity : option num
}.

Record DrawCommand : Type := {
  id : string;
  type : CommandType;
  points : option (list Point);
  style : option StrokeStyle
}.

Record Offset : Type := { offset_x : num; offset_y : num }.

Record Dimensions : Type := { dim_width : num; dim_height : num }.

Record CanvasState : Type := {
  commands : list DrawCommand;
  currentCommand : option DrawCommand;
  scale : num;
  offset : Offset;
  dimensions : Dimensions
}.

Inductive CanvasAction : Type :=
| START_STROKE (id : string) (point : Point) (style : StrokeStyle)
| ADD_POINT (point : Point)
| END_STROKE
| CLEAR_CANVAS
| UNDO
| REDO
| SET_SCALE (scale : num)
| SET_OFFSET (x y : num)
| SET_DIMENSIONS (width height : num).

End DataModel.

Arguments END_STROKE {num}.
Arguments CLEAR_CANVAS {num}.
Arguments UNDO {num}.
Arguments REDO {num}.
Arguments SET_TOOL {num}.

(** ** The reducers and the gesture callbacks *)

Section Canvas.

Variable num : Type.
Context {N : Number num}.

(** [initialCanvasState] of [CanvasContext.tsx]. *)
Definition initialCanvasState : CanvasState num := {|
  commands := [];
  currentCommand := None;
  scale := lit 1;
  offset := {| offset_x := lit 0; offset_y := lit 0 |};
  dimensions := {| dim_width := lit 0; dim_height := lit 0 |}
|}.

(** [canvasReducer]: each case rebuilds the state with the spread fields
    copied and the listed ones replaced. *)
Definition canvasReducer (state : CanvasState num) (action : CanvasAction num)
  : CanvasState num :=
  match action with
  | START_STROKE id point style =>
      {| commands := commands state;
         currentCommand :=
           Some {| id := id;
                   type := stroke;
                   points := Some [point];
                   style := Some style |};
         scale := scale state;
         offset := offset state;
         dimensions := dimensions state |}
  | ADD_POINT point =>
      match currentCommand state with
      | None => state
      | Some current =>
          {| commands := commands state;
             currentCommand :=
               Some {| id := id current;
                       type := type current;
                       points :=
                         Some (match points current with
                               | Some ps => ps
                               | None => []
                               end ++ [point]);
                       style := style current |};
             scale := scale state;
             offset := offset state;
             dimensions := dimensions state |}
      end
  | END_STROKE =>
      match currentCommand state with
      | None => state
      | Some current =>
          {| commands := commands state ++ [current];
             currentCommand := None;
             scale := scale state;
             offset := offset state;
             dimensions := dimensions state |}
      end
  | CLEAR_CANVAS =>
      {| commands := [];
         currentCommand := None;
         scale := scale state;
         offset := offset state;
         dimensions := dimensions state |}
  | UNDO =>
      if Nat.eqb (length (commands state)) 0 then state
      else
        {| commands := removelast (commands state);
           currentCommand := currentCommand state;
           scale := scale state;
           offset := offset state;
           dimensions := dimensions state |}
  | SET_SCALE scale' =>
      {| commands := commands state;
         currentCommand := currentCommand state;
         scale := scale';
         offset := offset state;
         dimensions := dimensions state |}
  | SET_OFFSET x' y' =>
      {| commands := commands state;
         currentCommand := currentCommand state;
         scale := scale state;
         offset := {| offset_x := x'; offset_y := y' |};
         dimensions := dimensions state |}
  | SET_DIMENSIONS width' height' =>
      {| commands := commands state;
         currentCommand := currentCommand state;
         scale := scale state;
         offset := offset state;
         dimensions := {| dim_width := width'; dim_height := height' |} |}
  | REDO => state
  end.

(** The helpers of [CanvasProvider]: each dispatches one action.  The id
    that [generateId] draws from [Math.random] is an input. *)
Definition startStroke (x y : num) (color : RGBColor num) (width : num)
    (generateId : string) (state : CanvasState num) : CanvasState num :=
  canvasReducer state
    (START_STROKE generateId
       {| x := x; y := y; pressure := None |}
       {| color := color; width := width; opacity := None |}).

Definition continueStroke (x y : num) (state : CanvasState num)
  : CanvasState num :=
  canvasReducer state (ADD_POINT {| x := x; y := y; pressure := None |}).

Definition endStroke (state : CanvasState num) : CanvasState num :=
  canvasReducer state END_STROKE.

Definition clearCanvas (state : CanvasState num) : CanvasState num :=
  canvasReducer state CLEAR_CANVAS.

Definition undo (state : CanvasState num) : CanvasState num :=
  canvasReducer state UNDO.

(** [initialToolSettings] and [toolReducer] of [ToolContext.tsx]. *)
Definition initialToolSettings : ToolSettings num := {|
  tool_type := pen;
  tool_color := {| r := lit 0; g := lit 0; b := lit 0; a := Some (lit 1) |};
  size := lit 5;
  tool_opacity := lit 1
|}.

Definition toolReducer (state : ToolSettings num) (action : ToolAction num)
  : ToolSettings num :=
  match action with
  | SET_TOOL tool =>
      {| tool_type := tool;
         tool_color := tool_color state;
         size := size state;
         tool_opacity := tool_opacity state |}
  | SET_COLOR color =>
      {| tool_type := tool_type state;
         tool_color := color;
         size := size state;
         tool_opacity := tool_opacity state |}
  | SET_SIZE size' =>
      {| tool_type := tool_type state;
         tool_color := tool_color state;
         size := size';
         tool_opacity := tool_opacity state |}
  | SET_OPACITY opacity' =>
      {| tool_type := tool_type state;
         tool_color := tool_color state;
         size := size state;
         tool_opacity := opacity' |}
  end.

(** The pan-responder callbacks of [Canvas.tsx].  The responder is built
    on every render, so [onPanResponderGrant] reads the tool settings
    current when the touch starts; the other callbacks read none. *)
Definition onPanResponderGrant (toolState : ToolSettings num)
    (locationX locationY : num) (generateId : string)
    (state : CanvasState num) : CanvasState num :=
  startStroke locationX locationY (tool_color toolState) (size toolState)
    generateId state.

Definition onPanResponderMove (locationX locationY : num)
    (state : CanvasState num) : CanvasState num :=
  continueStroke locationX locationY state.

Definition onPanResponderRelease (state : CanvasState num) : CanvasState num :=
  endStroke state.

Definition onPanResponderTerminate (state : CanvasState num)
  : CanvasState num :=
  endStroke state.

(** The application as the two providers hold it, and the events that
    reach it: touches on the canvas and presses on the tool bar. *)
Record App : Type := {
  toolState : ToolSettings num;
  canvasState : CanvasState num
}.

Inductive Event : Type :=
| pointerDown (locationX locationY : num) (generateId : string)
| pointerMove (locationX locationY : num)
| pointerUp
| pointerCancel
| undoPressed
| clearPressed
| toolChanged (action : ToolAction num).

Definition handle (app : App) (e : Event) : App :=
  match e with
  | pointerDown locationX locationY generateId =>
      {| toolState := toolState app;
         canvasState :=
           onPanResponderGrant (toolState app) locationX locationY
             generateId (canvasState app) |}
  | pointerMove locationX locationY =>
      {| toolState := toolState app;
         canvasState :=
           onPanResponderMove locationX locationY (canvasState app) |}
  | pointerUp =>
      {| toolState := toolState app;
         canvasState := onPanResponderRelease (canvasState app) |}
  | pointerCancel =>
      {| toolState := toolState app;
         canvasState := onPanResponderTerminate (canvasState app) |}
  | undoPressed =>
      {| toolState := toolState app; canvasState := undo (canvasState app) |}
  | clearPressed =>
      {| toolState := toolState app;
         canvasState := clearCanvas (canvasState app) |}
  | toolChanged action =>
      {| toolState := toolReducer (toolState app) action;
         canvasState := canvasState app |}
  end.

Definition run (app : App) (events : list Event) : App :=
  fold_left handle events app.

End Canvas.

Arguments initialCanvasState {num N}.
Arguments initialToolSettings {num N}.

(** ** Path smoothing: [src/modules/canvas/bezierUtils.ts] *)

(** [createSmoothPath] builds its result with template literals: fixed text
    interleaved with numbers that the engine converts to text.  The
    conversion is left alone: a path string is kept as its pieces, the
    empty string being the empty list and [+=] being [++]. *)
Inductive Piece (num : Type) : Type :=
| Text (s : string)
| Value (n : num).

Arguments Text {num}.

Definition PathData (num : Type) : Type := list (Piece num).

Section BezierUtils.

Variable num : Type.
Context {N : Number num}.

Local Open Scope js_scope.

Definition getControlPoints (p0 p1 p2 : Point num) : Point num :=
  let controlPoint :=
    {| x := x p1 + (x p2 - x p0) / lit 6;
       y := y p1 + (y p2 - y p0) / lit 6;
       pressure := None |} in
  controlPoint.

(** [Math.sqrt] and [Math.pow] are functions of the engine, which the
    language leaves implementation-approximated: they are parameters. *)
Variable Math_sqrt : num -> num.
Variable Math_pow : num -> num -> num.

(** The store of point objects. *)
Variable store : Reference -> Point num.

(** The [for] loop of [simplifyPath], over [points[1]], [points[2]], ...
    in order, with the two variables it updates. *)
Fixpoint simplifyLoop (tolerance : num) (rest : list Reference)
    (result : list Reference) (lastPoint : Reference) : list Reference :=
  match rest with
  | [] => result
  | point :: rest' =>
      let distance :=
        Math_sqrt
          (Math_pow (x (store point) - x (store lastPoint)) (lit 2)
           + Math_pow (y (store point) - y (store lastPoint)) (lit 2)) in
      if distance >= tolerance
      then simplifyLoop tolerance rest' (result ++ [point]) point
      else simplifyLoop tolerance rest' result lastPoint
  end.

(** [simplifyPath(points, tolerance = 2)]; [None] is the omitted
    argument. *)
Definition simplifyPath (points : list Reference) (tolerance : option num)
  : list Reference :=
  let tolerance := match tolerance with Some t => t | None => lit 2 end in
  if length points <=? 2 then points
  else
    match points with
    | [] => points
    | first :: rest =>
        let result := simplifyLoop tolerance rest [first] first in
        if strict_neq (last result first) (last points first)
        then result ++ [last points first]
        else result
    end.

(** [createSmoothPath]; [item i] is [points[i]], read only at indices
    below [points.length]. *)
Definition createSmoothPath (points : list (Point num)) : PathData num :=
  if length points <? 2 then []
  else
    match points with
    | [] => []
    | first :: _ =>
        let item i := nth i points first in
        let path :=
          [Text "M "; Value (x (item 0)); Text ","; Value (y (item 0))] in
        if length points =? 2
        then
          path ++ [Text " L "; Value (x (item 1)); Text ",";
                   Value (y (item 1))]
        else
          let path :=
            path ++ [Text " Q "; Value (x (item 0)); Text ",";
                     Value (y (item 0)); Text " ";
                     Value ((x (item 0) + x (item 1)) / lit 2); Text ",";
                     Value ((y (item 0) + y (item 1)) / lit 2)] in
          let path :=
            fold_left
              (fun path i =>
                 let p0 := item (i - 1)%nat in
                 let p1 := item i in
                 let p2 := item (i + 1)%nat in
                 let cp := getControlPoints p0 p1 p2 in
                 path ++ [Text " Q "; Value (x cp); Text ",";
                          Value (y cp); Text " ";
                          Value ((x p1 + x p2) / lit 2); Text ",";
                          Value ((y p1 + y p2) / lit 2)])
              (seq 1 (length points - 1 - 1))
              path in
          let lastIndex := (length points - 1)%nat in
          path ++ [Text " L "; Value (x (item lastIndex)); Text ",";
                   Value (y (item lastIndex))]
    end.

End BezierUtils.

(** The commands of an SVG path that [createSmoothPath] writes, and the
    text of each: ["M x,y"], [" L x,y"] and [" Q cx,cy x,y"]. *)
Inductive Segment (num : Type) : Type :=
| MoveTo (px py : num)
| LineTo (px py : num)
| QuadTo (cx cy px py : num).

Definition segmentData {num : Type} (s : Segment num) : PathData num :=
  match s with
  | MoveTo px py => [Text "M "; Value px; Text ","; Value py]
  | LineTo px py => [Text " L "; Value px; Text ","; Value py]
  | QuadTo cx cy px py =>
      [Text " Q "; Value cx; Text ","; Value cy; Text " "; Value px;
       Text ","; Value py]
  end.

Definition pathData {num : Type} (segments : list (Segment num)) : PathData num :=
  flat_map segmentData segments.

(** ** Rendering: [src/utils/colorUtils.ts] and [src/components/Canvas.tsx] *)

Section Rendering.

Variable num : Type.
Context {N : Number num}.
Variable Math_sqrt : num -> num.
Variable Math_pow : num -> num -> num.

(** [rgbToString], a template literal again; [a = 1] is the default of
    the destructuring, used when [a] is undefined. *)
Definition rgbToString (color : RGBColor num) : PathData num :=
  let alpha := match a color with Some alpha => alpha | None => lit 1 end in
  [Text "rgba("; Value (r color); Text ", "; Value (g color); Text ", ";
   Value (b color); Text ", "; Value alpha; Text ")"].

(** The properties of a [<Path>] element. *)
Record PathProps : Type := {
  path_key : option string;
  path_d : PathData num;
  path_stroke : PathData num;
  path_strokeWidth : num;
  path_strokeLinecap : string;
  path_strokeLinejoin : string;
  path_fill : string
}.

(** [simplifyPath(command.points)] as the component calls it, omitting
    the tolerance.  The points of a command are distinct objects, each
    made by an object literal of [startStroke] or [continueStroke]: the
    object at index [i] is given the reference [i]. *)
Definition simplifiedPoints (points : list (Point num)) : list (Point num) :=
  match points with
  | [] => []
  | first :: _ =>
      let store := fun ref => nth ref points first in
      map store
        (simplifyPath Math_sqrt Math_pow store (seq 0 (length points)) None)
  end.

(** [renderPath]; [None] is [null]. *)
Definition renderPath (command : DrawCommand num) : option PathProps :=
  match points command, style command with
  | Some commandPoints, Some commandStyle =>
      if length commandPoints <? 2 then None
      else
        let pathData := createSmoothPath (simplifiedPoints commandPoints) in
        let strokeColor := rgbToString (color commandStyle) in
        Some {| path_key := Some (id command);
                path_d := pathData;
                path_stroke := strokeColor;
                path_strokeWidth := width commandStyle;
                path_strokeLinecap := "round";
                path_strokeLinejoin := "round";
                path_fill := "none" |}
  | _, _ => None
  end.

(** [renderCurrentPath]: the same for the current command, without key. *)
Definition renderCurrentPath (state : CanvasState num) : option PathProps :=
  match currentCommand state with
  | None => None
  | Some current =>
      match points current, style current with
      | Some currentPoints, Some currentStyle =>
          if length currentPoints <? 2 then None
          else
            let pathData := createSmoothPath (simplifiedPoints currentPoints) in
            let strokeColor := rgbToString (color currentStyle) in
            Some {| path_key := None;
                    path_d := pathData;
                    path_stroke := strokeColor;
                    path_strokeWidth := width currentStyle;
                    path_strokeLinecap := "round";
                    path_strokeLinejoin := "round";
                    path_fill := "none" |}
      | _, _ => None
      end
  end.

(** The children of the [<G>] element: the committed paths in log order,
    then the current one; [null] children draw nothing. *)
Definition renderedPaths (state : CanvasState num) : list PathProps :=
  flat_map (fun child => match child with Some path => [path] | None => [] end)
    (map renderPath (commands state) ++ [renderCurrentPath state]).

End Rendering.

(** ** Settings: [SettingsProvider] *)

Module Settings.

Local Open Scope float_scope.

Record AppSettings : Type := {
  darkMode : bool;
  autoSave : bool;
  webpQuality : float
}.

Definition initialSettings : AppSettings :=
  {| darkMode := false; autoSave := true; webpQuality := 90 |}.

(** [Math.min] and [Math.max] on two numbers: NaN if one of them is NaN,
    and [-0] counts as smaller than [+0]. *)
Definition Math_min (value1 value2 : float) : float :=
  match value1 ?= value2 with
  | FLt => value1
  | FGt => value2
  | FEq => if get_sign value1 then value1 else value2
  | FNotComparable => nan
  end.

Definition Math_max (value1 value2 : float) : float :=
  match value1 ?= value2 with
  | FLt => value2
  | FGt => value1
  | FEq => if get_sign value1 then value2 else value1
  | FNotComparable => nan
  end.

Definition toggleDarkMode (prevSettings : AppSettings) : AppSettings :=
  {| darkMode := negb (darkMode prevSettings);
     autoSave := autoSave prevSettings;
     webpQuality := webpQuality prevSettings |}.

Definition toggleAutoSave (prevSettings : AppSettings) : AppSettings :=
  {| darkMode := darkMode prevSettings;
     autoSave := negb (autoSave prevSettings);
     webpQuality := webpQuality prevSettings |}.

Definition setWebpQuality (quality : float) (prevSettings : AppSettings)
  : AppSettings :=
  let validQuality := Math_max 0 (Math_min 100 quality) in
  {| darkMode := darkMode prevSettings;
     autoSave := autoSave prevSettings;
     webpQuality := validQuality |}.

End Settings.

(** ** Facts on lists *)

Section ListFacts.

Lemma last_cons {A : Type} (l : list A) :
  forall h d, last (h :: l) d = last l h.
Proof.
  induction l as [|h' l IH]; intros h d; [reflexivity|].
  change (last (h :: h' :: l) d) with (last (h' :: l) d).
  now rewrite !IH.
Qed.

Lemma fold_left_append {A B : Type} (f : A -> list B) (l : list A) :
  forall path,
    fold_left (fun path i => path ++ f i)%list l path =
    path ++ flat_map f l.
Proof.
  induction l as [|i l IH]; intros path; cbn.
  - now rewrite app_nil_r.
  - now rewrite IH, app_assoc.
Qed.

Lemma flat_map_map {A B C : Type} (f : A -> B) (g : B -> list C) l :
  flat_map g (map f l) = flat_map (fun i => g (f i)) l.
Proof. induction l as [|i l IH]; cbn; [reflexivity|now rewrite IH]. Qed.

Lemma nth_last {A : Type} (l : list A) :
  forall d, nth (length l - 1) l d = last l d.
Proof.
  induction l as [|h l IH]; intros d; [reflexivity|].
  destruct l as [|h' l]; [reflexivity|].
  specialize (IH d). cbn [length Nat.sub] in *.
  rewrite Nat.sub_0_r in *. exact IH.
Qed.

End ListFacts.

(** ** The command log and the stroke state machine *)

Section CanvasProperties.

Variable num : Type.

Implicit Types (state : CanvasState num) (app : App num).

(** A point as the callbacks build it from a touch location. *)
Definition touch (locationX locationY : num) : Point num :=
  {| x := locationX; y := locationY; pressure := None |}.

(** The style [onPanResponderGrant] hands to [startStroke]: the colour
    and the size of the tool settings it reads. *)
Definition snapshot (settings : ToolSettings num) : StrokeStyle num :=
  {| color := tool_color settings; width := size settings; opacity := None |}.

(** Presses on the tool bar between two touches leave the canvas alone. *)
Lemma run_toolChanged (actions : list (ToolAction num)) app :
  canvasState (run app (map (@toolChanged num) actions)) = canvasState app.
Proof.
  revert app.
  induction actions as [|action actions IH]; intros app; [reflexivity|].
  cbn [map run fold_left] in *.
  change (fold_left (@handle num) ?es ?a0) with (run a0 es).
  now rewrite IH.
Qed.

Lemma run_app app (es1 es2 : list (Event num)) :
  run app (es1 ++ es2) = run (run app es1) es2.
Proof. apply fold_left_app. Qed.

Lemma undo_nonempty state (init : list (DrawCommand num)) lastCommand :
  commands state = init ++ [lastCommand] ->
  commands (undo state) = init.
Proof.
  intros E. unfold undo, canvasReducer. rewrite E.
  rewrite length_app, Nat.add_comm. cbn [length Nat.add Nat.eqb commands].
  apply removelast_last.
Qed.

(** C1.  From any state of the application, a touch at [p0 = (x0, y0)],
    two moves to [p1] and [p2] and a release add exactly one command at
    the end of the log: its points are [p0; p1; p2] and its style is the
    colour and size the tool settings had when the touch started, however
    the tool bar changes the settings in between.  The rest of the log is
    as before and no current command remains. *)
Theorem stroke_gesture_commits_one_command
    app (x0 y0 x1 y1 x2 y2 : num) (generateId : string)
    (changes1 changes2 changes3 : list (ToolAction num)) :
  canvasState
    (run app
       ([pointerDown x0 y0 generateId] ++ map (@toolChanged num) changes1
        ++ [pointerMove x1 y1] ++ map (@toolChanged num) changes2
        ++ [pointerMove x2 y2] ++ map (@toolChanged num) changes3
        ++ [pointerUp num])) =
  {| commands :=
       commands (canvasState app)
       ++ [{| id := generateId;
              type := stroke;
              points := Some [touch x0 y0; touch x1 y1; touch x2 y2];
              style := Some (snapshot (toolState app)) |}];
     currentCommand := None;
     scale := scale (canvasState app);
     offset := offset (canvasState app);
     dimensions := dimensions (canvasState app) |}.
Proof.
  rewrite !run_app.
  set (app1 := run app [pointerDown x0 y0 generateId]).
  set (app2 := run app1 (map (@toolChanged num) changes1)).
  set (app3 := run app2 [pointerMove x1 y1]).
  set (app4 := run app3 (map (@toolChanged num) changes2)).
  set (app5 := run app4 [pointerMove x2 y2]).
  set (app6 := run app5 (map (@toolChanged num) changes3)).
  assert (E1 : canvasState app1 =
               canvasReducer (canvasState app)
                 (START_STROKE generateId (touch x0 y0)
                    (snapshot (toolState app)))) by reflexivity.
  assert (E2 : canvasState app2 = canvasState app1)
    by apply run_toolChanged.
  assert (E3 : canvasState app3 =
               canvasReducer (canvasState app2) (ADD_POINT (touch x1 y1)))
    by reflexivity.
  assert (E4 : canvasState app4 = canvasState app3)
    by apply run_toolChanged.
  assert (E5 : canvasState app5 =
               canvasReducer (canvasState app4) (ADD_POINT (touch x2 y2)))
    by reflexivity.
  assert (E6 : canvasState app6 = canvasState app5)
    by apply run_toolChanged.
  change (canvasState (run app6 [pointerUp num]))
    with (canvasReducer (canvasState app6) END_STROKE).
  rewrite E6, E5, E4, E3, E2, E1.
  reflexivity.
Qed.

(** C2.  [undo] on an empty log returns the state it was given; on a
    non-empty log it removes exactly the last command, the others staying
    in their order; in both cases the current command is untouched. *)
Theorem undo_removes_last_command state :
  (commands state = [] -> undo state = state)
  /\ (commands state <> [] ->
      exists init lastCommand,
        commands state = init ++ [lastCommand]
        /\ commands (undo state) = init)
  /\ currentCommand (undo state) = currentCommand state.
Proof.
  split; [|split].
  - intros E. unfold undo, canvasReducer. now rewrite E.
  - intros NE. destruct (exists_last NE) as [init [lastCommand E]].
    exists init, lastCommand. split; [exact E|].
    now apply undo_nonempty with (lastCommand := lastCommand).
  - unfold undo, canvasReducer.
    now destruct (Nat.eqb (length (commands state)) 0).
Qed.

(** What a touch in the idle state (no current command) installs in the
    code as it stands: the touched point alone and the colour and size of
    the tool settings at that instant.  [START_STROKE] writes the type
    [stroke] without looking at the tool: with the pen that is the kind
    expected, with the eraser it is not (see the run with the eraser
    selected at the end of the file). *)
Lemma pointerDown_installs_stroke
    app (locationX locationY : num) (generateId : string) :
  currentCommand (canvasState app) = None ->
  currentCommand
    (canvasState (handle app (pointerDown locationX locationY generateId))) =
  Some {| id := generateId;
          type := stroke;
          points := Some [touch locationX locationY];
          style := Some (snapshot (toolState app)) |}.
Proof. intros _. reflexivity. Qed.

(** C7.  [clear] from any state, with or without a current command,
    leaves an empty log and no current command. *)
Theorem clearCanvas_empties state :
  commands (clearCanvas state) = []
  /\ currentCommand (clearCanvas state) = None.
Proof. split; reflexivity. Qed.

(** C8.  With no current command, a move, a release and a cancel return
    the state they were given, at the reducer and for the application as
    a whole.  The reducer is a total function: it has no failing case. *)
Theorem pointer_events_without_stroke_are_noops
    app (locationX locationY : num) (point : Point num) :
  currentCommand (canvasState app) = None ->
  canvasReducer (canvasState app) (ADD_POINT point) = canvasState app
  /\ canvasReducer (canvasState app) END_STROKE = canvasState app
  /\ handle app (pointerMove locationX locationY) = app
  /\ handle app (pointerUp num) = app
  /\ handle app (pointerCancel num) = app.
Proof.
  intros Idle. destruct app as [tool state]. cbn [canvasState] in *.
  unfold handle, onPanResponderMove, onPanResponderRelease,
    onPanResponderTerminate, continueStroke, endStroke, canvasReducer.
  cbn [canvasState toolState]. rewrite Idle. repeat split.
Qed.

(** C10.  When a current command exists, [START_STROKE] replaces it by
    a new command holding the new point only; the points gathered so far
    are dropped, not committed: the log is as before. *)
Theorem second_pointerDown_restarts_stroke
    app (previous : DrawCommand num) (generateId : string)
    (point : Point num) (strokeStyle : StrokeStyle num)
    (locationX locationY : num) :
  currentCommand (canvasState app) = Some previous ->
  canvasReducer (canvasState app)
    (START_STROKE generateId point strokeStyle) =
  {| commands := commands (canvasState app);
     currentCommand :=
       Some {| id := generateId;
               type := stroke;
               points := Some [point];
               style := Some strokeStyle |};
     scale := scale (canvasState app);
     offset := offset (canvasState app);
     dimensions := dimensions (canvasState app) |}
  /\ canvasState
       (handle app (pointerDown locationX locationY generateId)) =
     {| commands := commands (canvasState app);
        currentCommand :=
          Some {| id := generateId;
                  type := stroke;
                  points := Some [touch locationX locationY];
                  style := Some (snapshot (toolState app)) |};
        scale := scale (canvasState app);
        offset := offset (canvasState app);
        dimensions := dimensions (canvasState app) |}.
Proof. intros _. split; reflexivity. Qed.

End CanvasProperties.

(** ** Path simplification *)

Section SimplifyPathProperties.

Variable num : Type.
Context {N : Number num}.
Variable Math_sqrt : num -> num.
Variable Math_pow : num -> num -> num.
Variable store : Reference -> Point num.

Local Open Scope js_scope.

Local Abbreviation loop := (simplifyLoop Math_sqrt Math_pow store).
Local Abbreviation simplify := (simplifyPath Math_sqrt Math_pow store).

(** The test of the loop: [point] is kept after [lastPoint]. *)
Definition keeps (tolerance : num) (lastPoint point : Reference) : bool :=
  Math_sqrt
    (Math_pow (x (store point) - x (store lastPoint)) (lit 2)
     + Math_pow (y (store point) - y (store lastPoint)) (lit 2))
  >= tolerance.

(** What the loop pushes, as a function of the points it scans. *)
Fixpoint kept (tolerance : num) (lastPoint : Reference)
    (rest : list Reference) : list Reference :=
  match rest with
  | [] => []
  | point :: rest' =>
      if keeps tolerance lastPoint point
      then point :: kept tolerance point rest'
      else kept tolerance lastPoint rest'
  end.

Lemma simplifyLoop_kept tolerance rest :
  forall result lastPoint,
    loop tolerance rest result lastPoint =
    (result ++ kept tolerance lastPoint rest)%list.
Proof.
  induction rest as [|point rest IH]; intros result lastPoint.
  - cbn. now rewrite app_nil_r.
  - cbn [simplifyLoop kept]. fold (keeps tolerance lastPoint point).
    destruct (keeps tolerance lastPoint point).
    + rewrite IH, <- app_assoc. reflexivity.
    + apply IH.
Qed.

Lemma kept_length tolerance rest :
  forall lastPoint, length (kept tolerance lastPoint rest) <= length rest.
Proof.
  induction rest as [|point rest IH]; intros lastPoint; cbn; [lia|].
  destruct (keeps tolerance lastPoint point); cbn.
  - specialize (IH point). lia.
  - specialize (IH lastPoint). lia.
Qed.

(** Scanning one more point: it is tested against the last point kept. *)
Lemma kept_snoc tolerance rest point :
  forall lastPoint,
    kept tolerance lastPoint (rest ++ [point]) =
    (kept tolerance lastPoint rest
     ++ if keeps tolerance (last (kept tolerance lastPoint rest) lastPoint)
             point
        then [point] else [])%list.
Proof.
  induction rest as [|q rest IH]; intros lastPoint.
  - cbn. now destruct (keeps tolerance lastPoint point).
  - cbn [app kept]. destruct (keeps tolerance lastPoint q).
    + rewrite IH, last_cons. reflexivity.
    + apply IH.
Qed.

(** Scanning what a scan kept keeps all of it. *)
Lemma kept_kept tolerance rest :
  forall lastPoint,
    kept tolerance lastPoint (kept tolerance lastPoint rest) =
    kept tolerance lastPoint rest.
Proof.
  induction rest as [|point rest IH]; intros lastPoint; [reflexivity|].
  cbn [kept]. destruct (keeps tolerance lastPoint point) eqn:K.
  - cbn [kept]. rewrite K. now rewrite IH.
  - apply IH.
Qed.

Lemma strict_neq_refl (a : Reference) : strict_neq a a = false.
Proof. unfold strict_neq. now rewrite Nat.eqb_refl. Qed.

Lemma strict_neq_false (a b : Reference) : strict_neq a b = false -> a = b.
Proof.
  unfold strict_neq. intros E. apply Nat.eqb_eq.
  now destruct (Nat.eqb a b).
Qed.

Definition threshold (tolerance : option num) : num :=
  match tolerance with Some t => t | None => lit 2 end.

(** [simplifyPath] on more than two points, in closed form. *)
Lemma simplifyPath_long first rest tolerance :
  2 < length (first :: rest) ->
  simplify (first :: rest) tolerance =
  (first :: kept (threshold tolerance) first rest
   ++ if strict_neq (last (kept (threshold tolerance) first rest) first)
           (last rest first)
      then [last rest first] else [])%list.
Proof.
  intros Long. unfold simplifyPath.
  fold (threshold tolerance).
  destruct (Nat.leb_spec (length (first :: rest)) 2) as [Short|_]; [lia|].
  rewrite simplifyLoop_kept. cbn [app].
  rewrite !last_cons.
  destruct (strict_neq _ _); cbn [app]; [reflexivity|].
  now rewrite app_nil_r.
Qed.

Lemma simplifyPath_short points tolerance :
  length points <= 2 -> simplify points tolerance = points.
Proof.
  intros Short. unfold simplifyPath.
  destruct (Nat.leb_spec (length points) 2) as [_|Long]; [reflexivity|lia].
Qed.

(** C3.  On a non-empty array and at any tolerance, given or defaulted
    to 2, [simplifyPath] returns an array whose first element is the
    first input point and whose last element is the last input point; it
    is never longer than the input, and it is the input itself when the
    input has at most two points. *)
Theorem simplifyPath_keeps_ends points tolerance :
  points <> [] ->
  hd_error (simplify points tolerance) = hd_error points
  /\ (forall d, last (simplify points tolerance) d = last points d)
  /\ length (simplify points tolerance) <= length points
  /\ (length points <= 2 -> simplify points tolerance = points).
Proof.
  intros NE. destruct points as [|first rest]; [congruence|clear NE].
  destruct (le_lt_dec (length (first :: rest)) 2) as [Short|Long].
  { rewrite simplifyPath_short by exact Short. repeat split; lia. }
  rewrite simplifyPath_long by exact Long.
  assert (NE : rest <> []) by (destruct rest; cbn in Long; [lia|discriminate]).
  destruct (exists_last NE) as [rest' [final ->]]. clear NE.
  rewrite last_last, kept_snoc.
  set (t := threshold tolerance).
  set (K := kept t first rest').
  assert (LK : length K <= length rest') by apply kept_length.
  split; [reflexivity|].
  destruct (keeps t (last K first) final).
  - rewrite last_last, strict_neq_refl, app_nil_r.
    repeat split.
    + intros d. now rewrite !app_comm_cons, !last_last.
    + cbn [length]. rewrite !length_app. cbn [length]. lia.
    + intros Short. lia.
  - rewrite app_nil_r.
    destruct (strict_neq (last K first) final) eqn:S.
    + repeat split.
      * intros d. now rewrite !app_comm_cons, !last_last.
      * cbn [length]. rewrite !length_app. cbn [length]. lia.
      * intros Short. lia.
    + apply strict_neq_false in S. rewrite app_nil_r.
      repeat split.
      * intros d. now rewrite last_cons, S, app_comm_cons, last_last.
      * cbn [length]. rewrite !length_app. cbn [length]. lia.
      * intros Short. lia.
Qed.

(** Simplifying twice at one tolerance is simplifying once. *)
Lemma simplifyPath_twice points tolerance :
  simplify (simplify points tolerance) tolerance = simplify points tolerance.
Proof.
  destruct (le_lt_dec (length points) 2) as [Short|Long].
  { rewrite (simplifyPath_short points tolerance Short).
    now apply simplifyPath_short. }
  destruct points as [|first rest]; [cbn in Long; lia|].
  rewrite simplifyPath_long by exact Long.
  set (t := threshold tolerance).
  set (K := kept t first rest).
  set (final := last rest first).
  destruct (le_lt_dec
              (length (first :: K ++ if strict_neq (last K first) final
                                     then [final] else [])%list) 2)
    as [Short'|Long'].
  { now apply simplifyPath_short. }
  rewrite simplifyPath_long by exact Long'. fold t.
  assert (KK : kept t first K = K) by apply kept_kept.
  destruct (strict_neq (last K first) final) eqn:S.
  - rewrite kept_snoc, last_last, !KK.
    destruct (keeps t (last K first) final).
    + now rewrite last_last, strict_neq_refl, app_nil_r.
    + now rewrite app_nil_r, S.
  - rewrite !app_nil_r, !KK, strict_neq_refl.
    now rewrite app_nil_r.
Qed.

(** C9.  At the default tolerance of 2, written out or omitted,
    simplifying a simplified array returns it unchanged. *)
Theorem simplifyPath_idempotent points :
  simplify (simplify points (Some (lit 2))) (Some (lit 2)) =
  simplify points (Some (lit 2))
  /\ simplify (simplify points None) None = simplify points None.
Proof. split; apply simplifyPath_twice. Qed.

End SimplifyPathProperties.

(** ** Smooth paths *)

Section SmoothPathProperties.

Variable num : Type.
Context {N : Number num}.

Local Open Scope js_scope.

(** The segment the loop of [createSmoothPath] writes at index [i]. *)
Definition interiorSegment (points : list (Point num)) (first : Point num)
    (i : nat) : Segment num :=
  let p0 := nth (i - 1)%nat points first in
  let p1 := nth i points first in
  let p2 := nth (i + 1)%nat points first in
  QuadTo (x p1 + (x p2 - x p0) / lit 6) (y p1 + (y p2 - y p0) / lit 6)
         ((x p1 + x p2) / lit 2) ((y p1 + y p2) / lit 2).

(** A path reads as segments in one way only. *)
Lemma pathData_inj (segments1 segments2 : list (Segment num)) :
  pathData segments1 = pathData segments2 -> segments1 = segments2.
Proof.
  revert segments2.
  induction segments1 as [|s1 segments1 IH]; intros [|s2 segments2] E.
  - reflexivity.
  - destruct s2; discriminate E.
  - destruct s1; discriminate E.
  - destruct s1, s2; cbn in E; try discriminate E;
      injection E as; subst; f_equal; now apply IH.
Qed.

(** [createSmoothPath] on three points or more, as a list of segments. *)
Lemma createSmoothPath_long (first : Point num) others :
  2 <= length others ->
  createSmoothPath (first :: others) =
  pathData
    (MoveTo (x first) (y first)
     :: QuadTo (x first) (y first)
          ((x first + x (nth 1 (first :: others) first)) / lit 2)
          ((y first + y (nth 1 (first :: others) first)) / lit 2)
     :: map (interiorSegment (first :: others) first)
          (seq 1 (length others - 1)%nat)
     ++ [LineTo (x (last others first)) (y (last others first))])%list.
Proof.
  intros Long. unfold createSmoothPath.
  destruct (Nat.ltb_spec (length (first :: others)) 2) as [Short|_];
    [cbn in Short; lia|].
  destruct (Nat.eqb_spec (length (first :: others)) 2) as [Two|_];
    [cbn in Two; lia|].
  rewrite fold_left_append.
  replace (length (first :: others) - 1 - 1)%nat
    with (length others - 1)%nat by (cbn [length]; lia).
  rewrite nth_last, last_cons.
  unfold pathData. cbn [flat_map segmentData].
  rewrite flat_map_app, flat_map_map. cbn [flat_map segmentData nth].
  rewrite app_nil_r, <- !app_assoc. reflexivity.
Qed.

(** C4.  [createSmoothPath] returns the empty path on no point and on
    one point; on two points it returns a move to the first and one
    straight line to the second; on three points or more its path ends
    with a line segment to the last input point. *)
Theorem createSmoothPath_shape :
  createSmoothPath (@nil (Point num)) = []
  /\ (forall p, createSmoothPath [p] = [])
  /\ (forall p q,
        createSmoothPath [p; q] =
        pathData [MoveTo (x p) (y p); LineTo (x q) (y q)])
  /\ (forall p0 p1 p2 rest, exists segments,
        createSmoothPath (p0 :: p1 :: p2 :: rest) =
        pathData
          (segments
           ++ [LineTo (x (last (p0 :: p1 :: p2 :: rest) p0))
                      (y (last (p0 :: p1 :: p2 :: rest) p0))])).
Proof.
  split; [reflexivity|].
  split; [intros p; reflexivity|].
  split; [intros p q; reflexivity|].
  intros p0 p1 p2 rest.
  rewrite createSmoothPath_long by (cbn [length]; lia).
  rewrite (last_cons (p1 :: p2 :: rest) p0 p0).
  rewrite !app_comm_cons. eexists. reflexivity.
Qed.

(** C5.  On [n >= 3] points the path of [createSmoothPath] is made of
    [n + 1] segments: a move to the first point; a quadratic segment
    whose control point is the first point and whose end is the midpoint
    of points 0 and 1; for each index [1 <= i <= n - 2] a quadratic
    segment with control point [p_i + (p_(i+1) - p_(i-1)) / 6] and end
    the midpoint of [p_i] and [p_(i+1)]; and a closing line. *)
Theorem createSmoothPath_segments (points : list (Point num)) :
  3 <= length points ->
  exists segments,
    createSmoothPath points = pathData segments
    /\ length segments = S (length points)
    /\ (forall p0 p1,
          nth_error points 0 = Some p0 ->
          nth_error points 1 = Some p1 ->
          nth_error segments 0 = Some (MoveTo (x p0) (y p0))
          /\ nth_error segments 1 =
             Some (QuadTo (x p0) (y p0)
                     ((x p0 + x p1) / lit 2) ((y p0 + y p1) / lit 2)))
    /\ (forall i before p after,
          1 <= i <= (length points - 2)%nat ->
          nth_error points (i - 1)%nat = Some before ->
          nth_error points i = Some p ->
          nth_error points (i + 1)%nat = Some after ->
          nth_error segments (i + 1)%nat =
          Some (QuadTo (x p + (x after - x before) / lit 6)
                       (y p + (y after - y before) / lit 6)
                       ((x p + x after) / lit 2)
                       ((y p + y after) / lit 2))).
Proof.
  intros Long. destruct points as [|first others]; [cbn in Long; lia|].
  cbn [length] in Long.
  eexists. split; [apply createSmoothPath_long; lia|].
  split; [|split].
  - cbn [length]. rewrite length_app, length_map, length_seq.
    cbn [length]. lia.
  - intros p0 p1 E0 E1. cbn [nth_error] in E0. injection E0 as <-.
    rewrite (nth_error_nth _ _ first E1). split; reflexivity.
  - intros i before p after [Lo Hi] Eb Ep Ea. cbn [length] in Hi.
    replace (i + 1)%nat with (S (S (i - 1))) by lia.
    cbn [nth_error].
    rewrite nth_error_app1 by (rewrite length_map, length_seq; lia).
    rewrite nth_error_map, nth_error_seq.
    destruct (Nat.ltb_spec (i - 1) (length others - 1)) as [_|Out]; [|lia].
    replace (1 + (i - 1))%nat with i by lia.
    cbn [option_map]. unfold interiorSegment.
    now rewrite (nth_error_nth _ _ first Eb), (nth_error_nth _ _ first Ep),
      (nth_error_nth _ _ first Ea).
Qed.

End SmoothPathProperties.

(** ** More on the command log *)

Section CommandLogProperties.

Variable num : Type.
Context {N : Number num}.

Implicit Types (state : CanvasState num) (app : App num).

(** What happens between the touch and the release of a gesture: the
    finger moves, or the tool bar is pressed. *)
Inductive GestureStep : Type :=
| moveTo (locationX locationY : num)
| toolPress (action : ToolAction num).

Definition stepEvent (step : GestureStep) : Event num :=
  match step with
  | moveTo locationX locationY => pointerMove locationX locationY
  | toolPress action => toolChanged action
  end.

(** The points of the moves, in order. *)
Definition stepPoints (steps : list GestureStep) : list (Point num) :=
  flat_map
    (fun step =>
       match step with
       | moveTo locationX locationY => [touch locationX locationY]
       | toolPress _ => []
       end)
    steps.

(** A command the renderer can draw: a stroke with at least one point and
    a style. *)
Definition drawable (command : DrawCommand num) : Prop :=
  type command = stroke
  /\ (exists p ps, points command = Some (p :: ps))
  /\ (exists strokeStyle, style command = Some strokeStyle).

Definition wellFormed state : Prop :=
  Forall drawable (commands state)
  /\ (forall current, currentCommand state = Some current -> drawable current).

(** While a command is current, moves append their points to it and
    nothing else changes. *)
Lemma run_steps (steps : list GestureStep) :
  forall app current ps,
    currentCommand (canvasState app) = Some current ->
    points current = Some ps ->
    canvasState (run app (map stepEvent steps)) =
    {| commands := commands (canvasState app);
       currentCommand :=
         Some {| id := id current;
                 type := type current;
                 points := Some (ps ++ stepPoints steps);
                 style := style current |};
       scale := scale (canvasState app);
       offset := offset (canvasState app);
       dimensions := dimensions (canvasState app) |}.
Proof.
  induction steps as [|step steps IH]; intros app current ps Cur Pts.
  - cbn. rewrite app_nil_r, <- Pts.
    destruct app as [tool [log cur sc off dims]]. cbn in *.
    rewrite Cur. now destruct current.
  - cbn [map]. change (run app (?e :: ?es)) with (run (handle app e) es).
    destruct step as [locationX locationY|action].
    + rewrite IH with
        (current := {| id := id current;
                       type := type current;
                       points := Some (ps ++ [touch locationX locationY]);
                       style := style current |})
        (ps := ps ++ [touch locationX locationY]).
      * cbn [stepPoints flat_map List.app]. rewrite <- app_assoc.
        cbn [stepEvent handle canvasState onPanResponderMove continueStroke
               canvasReducer].
        rewrite Cur. reflexivity.
      * cbn [stepEvent handle canvasState onPanResponderMove continueStroke
               canvasReducer].
        rewrite Cur. cbn [currentCommand]. now rewrite Pts.
      * reflexivity.
    + now rewrite (IH _ current ps).
Qed.

(** A whole gesture, closed by a release or by a cancel. *)
Lemma run_gesture app (x0 y0 : num) (generateId : string)
    (steps : list GestureStep) (closing : Event num) :
  closing = pointerUp num \/ closing = pointerCancel num ->
  canvasState
    (run app (pointerDown x0 y0 generateId :: map stepEvent steps ++ [closing])) =
  {| commands :=
       commands (canvasState app)
       ++ [{| id := generateId;
              type := stroke;
              points := Some (touch x0 y0 :: stepPoints steps);
              style := Some (snapshot (toolState app)) |}];
     currentCommand := None;
     scale := scale (canvasState app);
     offset := offset (canvasState app);
     dimensions := dimensions (canvasState app) |}.
Proof.
  intros Closing.
  change (run app (?e :: ?es)) with (run (handle app e) es).
  rewrite run_app.
  set (mid := run (handle app (pointerDown x0 y0 generateId))
                (map stepEvent steps)).
  assert (Mid : canvasState mid =
    {| commands := commands (canvasState app);
       currentCommand :=
         Some {| id := generateId;
                 type := stroke;
                 points := Some ([touch x0 y0] ++ stepPoints steps);
                 style := Some (snapshot (toolState app)) |};
       scale := scale (canvasState app);
       offset := offset (canvasState app);
       dimensions := dimensions (canvasState app) |}).
  { unfold mid.
    now rewrite run_steps with
      (current := {| id := generateId;
                     type := stroke;
                     points := Some [touch x0 y0];
                     style := Some (snapshot (toolState app)) |})
      (ps := [touch x0 y0]). }
  assert (End : canvasState (run mid [closing]) =
                canvasReducer (canvasState mid) END_STROKE)
    by (destruct Closing as [-> | ->]; reflexivity).
  now rewrite End, Mid.
Qed.

(** X1.  A gesture of any length commits every point it touched: a touch,
    then any number of moves and tool-bar presses, then a release or a
    cancel, adds one command whose points are the touched point followed
    by the points of the moves in order, styled as the tool settings were
    when the touch started. *)
Theorem gesture_commits_every_point
    app (x0 y0 : num) (generateId : string) (steps : list GestureStep) :
  let committed :=
    {| commands :=
         commands (canvasState app)
         ++ [{| id := generateId;
                type := stroke;
                points := Some (touch x0 y0 :: stepPoints steps);
                style := Some (snapshot (toolState app)) |}];
       currentCommand := None;
       scale := scale (canvasState app);
       offset := offset (canvasState app);
       dimensions := dimensions (canvasState app) |} in
  canvasState
    (run app
       (pointerDown x0 y0 generateId :: map stepEvent steps
        ++ [pointerUp num])) = committed
  /\ canvasState
       (run app
          (pointerDown x0 y0 generateId :: map stepEvent steps
           ++ [pointerCancel num])) = committed.
Proof.
  cbv zeta. split; apply run_gesture; [now left|now right].
Qed.

Lemma Forall_removelast {A : Type} (P : A -> Prop) (l : list A) :
  Forall P l -> Forall P (removelast l).
Proof.
  induction 1 as [|h l Ph Pl IH]; [constructor|].
  destruct l as [|h' l]; [constructor|].
  change (removelast (h :: h' :: l)) with (h :: removelast (h' :: l)).
  now constructor.
Qed.

Lemma canvasReducer_wellFormed state (action : CanvasAction num) :
  wellFormed state -> wellFormed (canvasReducer state action).
Proof.
  intros [Log Cur].
  destruct action; unfold canvasReducer.
  - split; [exact Log|]. cbn [currentCommand]. intros current [= <-].
    repeat split; cbn; eauto.
  - destruct (currentCommand state) as [current|] eqn:E;
      [|split; [exact Log|rewrite E; discriminate]].
    split; [exact Log|]. cbn [currentCommand]. intros current' [= <-].
    destruct (Cur current eq_refl) as [T [[p [ps P]] S]].
    repeat split; cbn; [exact T| |exact S].
    rewrite P. cbn [List.app]. eauto.
  - destruct (currentCommand state) as [current|] eqn:E;
      [|split; [exact Log|rewrite E; discriminate]].
    split; cbn [commands currentCommand]; [|discriminate].
    apply Forall_app. split; [exact Log|].
    constructor; [now apply Cur|constructor].
  - split; cbn [commands currentCommand]; [constructor|discriminate].
  - destruct (Nat.eqb (length (commands state)) 0); [now split|].
    split; cbn [commands currentCommand]; [|exact Cur].
    now apply Forall_removelast.
  - now split.
  - now split.
  - now split.
  - now split.
Qed.

(** X2.  Whatever actions are dispatched from the initial state, every
    command of the log, and the current command if there is one, is a
    stroke with at least one point and a style: no [erase] or [clear]
    command and no empty command is ever recorded. *)
Theorem reachable_states_wellFormed (actions : list (CanvasAction num)) :
  wellFormed (fold_left (@canvasReducer num) actions initialCanvasState).
Proof.
  assert (Step : forall state,
             wellFormed state ->
             wellFormed (fold_left (@canvasReducer num) actions state)).
  { induction actions as [|action actions IH]; intros state WF; [exact WF|].
    cbn [fold_left]. apply IH. now apply canvasReducer_wellFormed. }
  apply Step. split; cbn; [constructor|discriminate].
Qed.

(** X3.  One action changes the log in one of four ways only: not at all,
    by appending the current command, by dropping the last command, or by
    emptying it.  A committed command is never edited or moved. *)
Theorem canvasReducer_log_moves state (action : CanvasAction num) :
  commands (canvasReducer state action) = commands state
  \/ (exists current,
        currentCommand state = Some current
        /\ commands (canvasReducer state action) = commands state ++ [current])
  \/ commands (canvasReducer state action) = removelast (commands state)
  \/ commands (canvasReducer state action) = [].
Proof.
  destruct action; unfold canvasReducer; auto.
  - destruct (currentCommand state); auto.
  - destruct (currentCommand state) as [current|]; [|auto].
    right; left. now exists current.
  - destruct (Nat.eqb (length (commands state)) 0); auto.
Qed.

(** X4.  Undoing right after a stroke is committed gives back the log as
    it was before the stroke, with no current command. *)
Theorem undo_after_endStroke state (current : DrawCommand num) :
  currentCommand state = Some current ->
  undo (endStroke state) =
  {| commands := commands state;
     currentCommand := None;
     scale := scale state;
     offset := offset state;
     dimensions := dimensions state |}.
Proof.
  intros Cur. unfold undo, endStroke, canvasReducer. rewrite Cur.
  cbn [commands currentCommand scale offset dimensions].
  rewrite length_app, Nat.add_comm. cbn [length Nat.add Nat.eqb].
  now rewrite removelast_last.
Qed.

Lemma commands_undo state :
  commands (undo state) = removelast (commands state).
Proof.
  unfold undo, canvasReducer.
  destruct (commands state) as [|c log] eqn:E; cbn [length Nat.eqb].
  - now rewrite E.
  - reflexivity.
Qed.

Lemma currentCommand_undo state :
  currentCommand (undo state) = currentCommand state.
Proof.
  unfold undo, canvasReducer.
  now destruct (Nat.eqb (length (commands state)) 0).
Qed.

(** X5.  [n] undos in a row drop the last [n] commands of the log, all of
    them when the log has fewer, and leave the current command alone. *)
Theorem undo_iterated (n : nat) state :
  commands (Nat.iter n (@undo num) state) =
  firstn (length (commands state) - n) (commands state)
  /\ currentCommand (Nat.iter n (@undo num) state) = currentCommand state.
Proof.
  induction n as [|n [IHlog IHcur]].
  - change (Nat.iter 0 (@undo num) state) with state.
    rewrite Nat.sub_0_r, firstn_all. now split.
  - change (Nat.iter (S n) (@undo num) state)
      with (undo (Nat.iter n (@undo num) state)).
    rewrite commands_undo, currentCommand_undo, IHlog.
    split; [|exact IHcur].
    destruct (Nat.le_gt_cases (length (commands state)) n) as [Le|Gt].
    + replace (length (commands state) - n) with 0 by lia.
      replace (length (commands state) - S n) with 0 by lia.
      reflexivity.
    + replace (length (commands state) - n)
        with (S (length (commands state) - S n)) by lia.
      apply removelast_firstn. lia.
Qed.

(** Two tool settings that draw alike: same colour, same size. *)
Definition sameBrush (settings1 settings2 : ToolSettings num) : Prop :=
  tool_color settings1 = tool_color settings2
  /\ size settings1 = size settings2.

Lemma handle_sameBrush app1 app2 (e : Event num) :
  sameBrush (toolState app1) (toolState app2) ->
  canvasState app1 = canvasState app2 ->
  sameBrush (toolState (handle app1 e)) (toolState (handle app2 e))
  /\ canvasState (handle app1 e) = canvasState (handle app2 e).
Proof.
  intros [Colour Size] Canvas.
  destruct e as [locationX locationY generateId|locationX locationY| | | | |action];
    cbn [handle toolState canvasState];
    try (split; [now split|now rewrite Canvas]).
  - split; [now split|].
    unfold onPanResponderGrant. now rewrite Colour, Size, Canvas.
  - split; [|exact Canvas].
    destruct action; cbn [toolReducer]; split; cbn; auto.
Qed.

(** X6.  The selected tool and the opacity setting never reach the
    canvas: two runs of the same events from the same canvas, under tool
    settings that agree on colour and size, end in the same canvas state,
    whether the pen, the eraser or the selector is active. *)
Theorem canvas_ignores_tool_type app1 app2 (events : list (Event num)) :
  sameBrush (toolState app1) (toolState app2) ->
  canvasState app1 = canvasState app2 ->
  canvasState (run app1 events) = canvasState (run app2 events).
Proof.
  revert app1 app2.
  induction events as [|e events IH]; intros app1 app2 Brush Canvas.
  - exact Canvas.
  - change (run ?a (e :: events)) with (run (handle a e) events).
    destruct (@handle_sameBrush app1 app2 e Brush Canvas) as [Brush' Canvas'].
    now apply IH.
Qed.

End CommandLogProperties.

(** ** More on path simplification *)

(** [l1] is [l2] with some elements left out, the others in their order. *)
Inductive subsequence {A : Type} : list A -> list A -> Prop :=
| subsequence_nil : subsequence [] []
| subsequence_skip h l1 l2 : subsequence l1 l2 -> subsequence l1 (h :: l2)
| subsequence_keep h l1 l2 : subsequence l1 l2 -> subsequence (h :: l1) (h :: l2).

Section SimplifyPathGuarantees.

Variable num : Type.
Context {N : Number num}.
Variable Math_sqrt : num -> num.
Variable Math_pow : num -> num -> num.
Variable store : Reference -> Point num.

Local Abbreviation simplify := (simplifyPath Math_sqrt Math_pow store).
Local Abbreviation far := (keeps Math_sqrt Math_pow store).
Local Abbreviation scan := (kept Math_sqrt Math_pow store).

(** Every point of [l] passes the test of the loop against the point
    before it, [lastPoint] for the first. *)
Fixpoint spaced (tolerance : num) (lastPoint : Reference)
    (l : list Reference) : bool :=
  match l with
  | [] => true
  | point :: l' => far tolerance lastPoint point && spaced tolerance point l'
  end.

Lemma subsequence_refl {A : Type} (l : list A) : subsequence l l.
Proof. induction l; now constructor. Qed.

Lemma subsequence_app {A : Type} (l1 l2 l3 l4 : list A) :
  subsequence l1 l2 -> subsequence l3 l4 -> subsequence (l1 ++ l3) (l2 ++ l4).
Proof.
  induction 1 as [|h l1 l2 _ IH|h l1 l2 _ IH]; intros S; cbn.
  - exact S.
  - apply subsequence_skip. now apply IH.
  - apply subsequence_keep. now apply IH.
Qed.

Lemma kept_subsequence tolerance rest :
  forall lastPoint, subsequence (scan tolerance lastPoint rest) rest.
Proof.
  induction rest as [|point rest IH]; intros lastPoint; cbn [kept];
    [constructor|].
  destruct (far tolerance lastPoint point); now constructor.
Qed.

(** Two neighbours among the points the loop kept pass its test. *)
Lemma kept_neighbours tolerance rest :
  forall lastPoint i p q,
    nth_error (lastPoint :: scan tolerance lastPoint rest) i = Some p ->
    nth_error (lastPoint :: scan tolerance lastPoint rest) (S i) = Some q ->
    far tolerance p q = true.
Proof.
  induction rest as [|point rest IH]; intros lastPoint i p q Ep Eq.
  - cbn in Eq. now destruct i.
  - cbn [kept] in Ep, Eq.
    destruct (far tolerance lastPoint point) eqn:K; [|now apply (IH lastPoint i)].
    destruct i as [|i].
    + cbn in Ep, Eq. now injection Ep as <-; injection Eq as <-.
    + now apply (IH point i).
Qed.

Lemma kept_spaced tolerance rest :
  forall lastPoint,
    spaced tolerance lastPoint rest = true ->
    scan tolerance lastPoint rest = rest.
Proof.
  induction rest as [|point rest IH]; intros lastPoint Sp; [reflexivity|].
  cbn [spaced] in Sp. apply andb_prop in Sp as [K Sp].
  cbn [kept]. rewrite K. now rewrite IH.
Qed.

(** The two shapes of a result on more than two points: the scan of all
    points but the last, followed by the last point or ending on it. *)
Lemma simplifyPath_cases first rest final tolerance :
  2 < length (first :: rest ++ [final]) ->
  simplify (first :: rest ++ [final]) tolerance =
    (first :: scan (threshold tolerance) first rest ++ [final])%list
  \/ (simplify (first :: rest ++ [final]) tolerance =
        first :: scan (threshold tolerance) first rest
      /\ last (scan (threshold tolerance) first rest) first = final).
Proof.
  intros Long. rewrite simplifyPath_long by exact Long.
  rewrite last_last, kept_snoc.
  set (K := scan (threshold tolerance) first rest).
  destruct (far (threshold tolerance) (last K first) final).
  - left. now rewrite last_last, strict_neq_refl, !app_nil_r.
  - rewrite app_nil_r.
    destruct (strict_neq (last K first) final) eqn:S; [now left|].
    right. rewrite app_nil_r. now apply strict_neq_false in S.
Qed.

(** On distinct objects, two or more, the result begins with the first
    and ends with the last, as two elements. *)
Lemma simplifyPath_distinct first rest final tolerance :
  NoDup (first :: rest ++ [final]) ->
  exists middle,
    simplify (first :: rest ++ [final]) tolerance =
    (first :: middle ++ [final])%list.
Proof.
  intros Distinct.
  destruct (le_lt_dec (length (first :: rest ++ [final])) 2) as [Short|Long].
  { rewrite simplifyPath_short by exact Short. now exists rest. }
  destruct (@simplifyPath_cases first rest final tolerance Long)
    as [E|[E Last]].
  - eexists. exact E.
  - set (K := scan (threshold tolerance) first rest) in *.
    destruct K as [|k K'] eqn:EK.
    + cbn in Last. subst final. apply NoDup_cons_iff in Distinct as [Out _].
      exfalso. apply Out. apply in_or_app. right. now left.
    + assert (NE : k :: K' <> []) by discriminate.
      destruct (exists_last NE) as [middle [final' EQ]].
      rewrite EQ, last_last in Last. subst final'.
      exists middle. now rewrite E, EQ.
Qed.

(** X7.  [simplifyPath] only leaves points out: its result is the input
    with some elements removed, never a new, repeated or displaced one. *)
Theorem simplifyPath_subsequence points tolerance :
  subsequence (simplify points tolerance) points.
Proof.
  destruct (le_lt_dec (length points) 2) as [Short|Long].
  { rewrite simplifyPath_short by exact Short. apply subsequence_refl. }
  destruct points as [|first rest]; [cbn in Long; lia|].
  assert (NE : rest <> []) by (destruct rest; cbn in Long; [lia|discriminate]).
  destruct (exists_last NE) as [rest' [final ->]].
  destruct (@simplifyPath_cases first rest' final tolerance Long)
    as [E|[E _]]; rewrite E; apply subsequence_keep.
  - apply subsequence_app; [apply kept_subsequence|apply subsequence_refl].
  - rewrite <- (app_nil_r (scan _ _ _)).
    apply subsequence_app; [apply kept_subsequence|].
    apply subsequence_skip. apply subsequence_nil.
Qed.

(** X8.  In the result on more than two points, any two neighbours other
    than the final pair pass the distance test of the loop: the later is
    at least [tolerance] away from the earlier, as the code measures it.
    (The last point is put back whatever its distance.) *)
Theorem simplifyPath_spacing points tolerance i p q :
  2 < length points ->
  nth_error (simplify points tolerance) i = Some p ->
  nth_error (simplify points tolerance) (S i) = Some q ->
  S (S i) < length (simplify points tolerance) ->
  far (threshold tolerance) p q = true.
Proof.
  intros Long.
  destruct points as [|first rest]; [cbn in Long; lia|].
  assert (NE : rest <> []) by (destruct rest; cbn in Long; [lia|discriminate]).
  destruct (exists_last NE) as [rest' [final ->]].
  destruct (@simplifyPath_cases first rest' final tolerance Long)
    as [E|[E _]]; rewrite E; intros Ep Eq Inner.
  - rewrite app_comm_cons in Ep, Eq, Inner.
    rewrite length_app in Inner. cbn [length] in Inner.
    rewrite nth_error_app1 in Ep by (cbn [length]; lia).
    rewrite nth_error_app1 in Eq by (cbn [length]; lia).
    exact (@kept_neighbours _ _ _ _ _ _ Ep Eq).
  - exact (@kept_neighbours _ _ _ _ _ _ Ep Eq).
Qed.

(** X9.  A path whose every point passes the distance test against the
    point before it is returned as it is. *)
Theorem simplifyPath_spaced_unchanged first rest tolerance :
  spaced (threshold tolerance) first rest = true ->
  simplify (first :: rest) tolerance = first :: rest.
Proof.
  intros Sp.
  destruct (le_lt_dec (length (first :: rest)) 2) as [Short|Long].
  { now apply simplifyPath_short. }
  rewrite simplifyPath_long by exact Long.
  rewrite (@kept_spaced _ _ _ Sp), strict_neq_refl.
  now rewrite app_nil_r.
Qed.

(** X10.  When the points are distinct objects, two or more, the result
    has at least two elements: it begins with the first input point and
    ends with the last one.  (One object met at both ends of an array can
    come back alone.) *)
Theorem simplifyPath_distinct_ends first rest final tolerance :
  NoDup (first :: rest ++ [final]) ->
  2 <= length (simplify (first :: rest ++ [final]) tolerance)
  /\ hd_error (simplify (first :: rest ++ [final]) tolerance) = Some first
  /\ forall d, last (simplify (first :: rest ++ [final]) tolerance) d = final.
Proof.
  intros Distinct.
  destruct (@simplifyPath_distinct first rest final tolerance Distinct)
    as [middle ->].
  split; [cbn [length]; rewrite length_app; cbn [length]; lia|].
  split; [reflexivity|].
  intros d. now rewrite app_comm_cons, last_last.
Qed.

End SimplifyPathGuarantees.

(** ** Rendering *)

Section RenderingProperties.

Variable num : Type.
Context {N : Number num}.
Variable Math_sqrt : num -> num.
Variable Math_pow : num -> num -> num.

Local Abbreviation render := (renderPath Math_sqrt Math_pow).

(** A smooth path through two points or more starts at the first and
    ends with a line to the last. *)
Lemma createSmoothPath_ends (first : Point num) middle final :
  exists segments,
    createSmoothPath (first :: middle ++ [final]) =
    pathData (MoveTo (x first) (y first)
              :: segments ++ [LineTo (x final) (y final)]).
Proof.
  destruct middle as [|second middle].
  - now exists [].
  - rewrite createSmoothPath_long
      by (cbn [length]; rewrite length_app; cbn [length]; lia).
    rewrite last_last. eexists (_ :: _)%list. reflexivity.
Qed.

(** X11.  A committed gesture is drawn exactly when the finger moved: a
    tap, with no move between touch and release, is added to the log (and
    takes an undo to remove) but [renderPath] returns null for it. *)
Theorem gesture_drawn_iff_moved
    (app : App num) (x0 y0 : num) (generateId : string)
    (steps : list (GestureStep num)) :
  exists command,
    commands
      (canvasState
         (run app
            (pointerDown x0 y0 generateId :: map (@stepEvent num) steps
             ++ [pointerUp num]))) =
    commands (canvasState app) ++ [command]
    /\ (render command = None <-> stepPoints steps = []).
Proof.
  eexists. split.
  - now rewrite run_gesture by (now left).
  - unfold renderPath. cbn [points style].
    destruct (stepPoints steps) as [|p ps]; cbn [length Nat.ltb Nat.leb];
      split; congruence.
Qed.

(** X12.  A command with a style and two points or more is drawn as one
    path that starts at its first point and ends with a line to its last
    point, whatever the simplification drops in between; the path carries
    the colour and the width of the command's style and its id as key. *)
Theorem renderPath_ends
    (command : DrawCommand num) (first : Point num) middle final
    (commandStyle : StrokeStyle num) :
  points command = Some (first :: middle ++ [final]) ->
  style command = Some commandStyle ->
  exists segments,
    render command =
    Some {| path_key := Some (id command);
            path_d :=
              pathData (MoveTo (x first) (y first)
                        :: segments ++ [LineTo (x final) (y final)]);
            path_stroke := rgbToString (color commandStyle);
            path_strokeWidth := width commandStyle;
            path_strokeLinecap := "round";
            path_strokeLinejoin := "round";
            path_fill := "none" |}.
Proof.
  intros Pts Sty. unfold renderPath. rewrite Pts, Sty.
  destruct (Nat.ltb_spec (length (first :: middle ++ [final])) 2) as [Short|_].
  { cbn [length] in Short. rewrite length_app in Short. cbn in Short. lia. }
  unfold simplifiedPoints. cbv zeta.
  set (store := fun ref => nth ref (first :: middle ++ [final]) first).
  assert (Refs : seq 0 (length (first :: middle ++ [final])) =
                 0 :: seq 1 (length middle) ++ [S (length middle)]).
  { cbn [length]. rewrite length_app, Nat.add_comm. cbn [length Nat.add].
    rewrite seq_S. reflexivity. }
  rewrite Refs.
  assert (Distinct : NoDup (0 :: seq 1 (length middle) ++ [S (length middle)]))
    by (rewrite <- Refs; apply seq_NoDup).
  destruct (@simplifyPath_distinct num N Math_sqrt Math_pow store
              0 (seq 1 (length middle)) (S (length middle)) None Distinct)
    as [kept Simplified].
  unfold Reference in Simplified. rewrite Simplified.
  cbn [map]. rewrite map_app. cbn [map].
  assert (First : store 0 = first) by reflexivity.
  assert (Final : store (S (length middle)) = final).
  { unfold store. cbn [nth]. rewrite app_nth2 by lia.
    now rewrite Nat.sub_diag. }
  rewrite First, Final.
  destruct (createSmoothPath_ends first (map store kept) final)
    as [segments ->].
  now exists segments.
Qed.

(** What a child of the [<G>] element puts on the screen. *)
Definition drawn (child : option (PathProps num)) : list (PathProps num) :=
  match child with Some path => [path] | None => [] end.

(** X13.  [undo] takes off the screen exactly the path of the last
    command, nothing when that command was not drawn; the paths of the
    other commands and of the current command stay, in their order. *)
Theorem undo_removes_last_path
    (state : CanvasState num) (init : list (DrawCommand num))
    (lastCommand : DrawCommand num) :
  commands state = init ++ [lastCommand] ->
  renderedPaths Math_sqrt Math_pow state =
    flat_map drawn (map render init)
    ++ drawn (render lastCommand)
    ++ drawn (renderCurrentPath Math_sqrt Math_pow state)
  /\ renderedPaths Math_sqrt Math_pow (undo state) =
       flat_map drawn (map render init)
       ++ drawn (renderCurrentPath Math_sqrt Math_pow state).
Proof.
  intros Log. unfold renderedPaths. fold drawn.
  rewrite (@undo_nonempty num state init lastCommand Log).
  assert (Current : renderCurrentPath Math_sqrt Math_pow (undo state) =
                    renderCurrentPath Math_sqrt Math_pow state)
    by (unfold renderCurrentPath; now rewrite currentCommand_undo).
  rewrite Current, Log, map_app, !flat_map_app. cbn [map flat_map].
  rewrite !app_nil_r, <- app_assoc. now split.
Qed.

End RenderingProperties.

(** ** Settings *)

Section SettingsProperties.

Import Settings.

Local Open Scope float_scope.

Lemma SFcompare_antisym (f1 f2 : spec_float) :
  SFcompare f2 f1 = option_map CompOpp (SFcompare f1 f2).
Proof.
  pose proof (fun m1 m2 => Pos.compare_cont_antisym m1 m2 Eq) as Anti.
  cbn [CompOpp] in Anti.
  destruct f1 as [s1|s1| |s1 m1 e1], f2 as [s2|s2| |s2 m2 e2];
    try destruct s1; try destruct s2; try reflexivity;
    cbn [SFcompare option_map]; f_equal;
    rewrite (Z.compare_antisym e1 e2);
    destruct (Z.compare e1 e2); cbn [CompOpp]; try reflexivity;
    rewrite <- (Anti m1 m2); try reflexivity.
Qed.

Lemma compare_FLt_leb (f1 f2 : float) :
  (f1 ?= f2) = FLt -> (f1 <=? f2) = true.
Proof.
  rewrite compare_spec, leb_spec. unfold SFleb.
  now destruct (SFcompare (Prim2SF f1) (Prim2SF f2)) as [[]|].
Qed.

Lemma compare_FGt_leb (f1 f2 : float) :
  (f1 ?= f2) = FGt -> (f2 <=? f1) = true.
Proof.
  rewrite compare_spec, leb_spec. unfold SFleb.
  rewrite (SFcompare_antisym (Prim2SF f1) (Prim2SF f2)).
  now destruct (SFcompare (Prim2SF f1) (Prim2SF f2)) as [[]|].
Qed.

Lemma compare_FEq_leb (f1 f2 : float) :
  (f1 ?= f2) = FEq -> (f2 <=? f1) = true.
Proof.
  rewrite compare_spec, leb_spec. unfold SFleb.
  rewrite (SFcompare_antisym (Prim2SF f1) (Prim2SF f2)).
  now destruct (SFcompare (Prim2SF f1) (Prim2SF f2)) as [[]|].
Qed.

Lemma is_nan_spec (f : float) :
  is_nan f = match Prim2SF f with S754_nan => true | _ => false end.
Proof.
  unfold is_nan. rewrite eqb_spec. unfold SFeqb.
  destruct (Prim2SF f) as [s|s| |s m e]; try destruct s; cbn;
    rewrite ?Z.compare_refl, ?Pos.compare_cont_refl; reflexivity.
Qed.

(** A number is NaN exactly when it compares with nothing. *)
Lemma compare_nan (f1 f2 : float) :
  is_nan f2 = true -> (f1 ?= f2) = FNotComparable.
Proof.
  rewrite is_nan_spec, compare_spec.
  destruct (Prim2SF f2); try discriminate.
  now destruct (Prim2SF f1).
Qed.

Lemma compare_numbers (f1 f2 : float) :
  is_nan f1 = false -> is_nan f2 = false -> (f1 ?= f2) <> FNotComparable.
Proof.
  rewrite !is_nan_spec, compare_spec. intros Number1 Number2.
  destruct (SFcompare (Prim2SF f1) (Prim2SF f2)) as [[]|] eqn:C;
    try discriminate.
  destruct (Prim2SF f1), (Prim2SF f2); discriminate.
Qed.

(** [Math.min(100, quality)] on a number: a number, at most 100. *)
Lemma Math_min_100 (quality : float) :
  is_nan quality = false ->
  is_nan (Math_min 100 quality) = false
  /\ (Math_min 100 quality <=? 100) = true.
Proof.
  intros Number. unfold Math_min.
  pose proof (@compare_numbers 100 quality eq_refl Number) as Comparable.
  destruct (100 ?= quality) eqn:C.
  - change (get_sign 100) with false. cbv iota.
    split; [exact Number|now apply compare_FEq_leb].
  - now split.
  - split; [exact Number|now apply compare_FGt_leb].
  - contradiction.
Qed.

(** X14.  [setWebpQuality] stores a quality between 0 and 100 whenever it
    is given a number; given NaN it stores NaN, which the two bounds let
    through.  The other settings are kept. *)
Theorem setWebpQuality_range (quality : float) (prevSettings : AppSettings) :
  (if is_nan quality
   then is_nan (webpQuality (setWebpQuality quality prevSettings)) = true
   else (0 <=? webpQuality (setWebpQuality quality prevSettings)) = true
        /\ (webpQuality (setWebpQuality quality prevSettings) <=? 100) = true)
  /\ darkMode (setWebpQuality quality prevSettings) = darkMode prevSettings
  /\ autoSave (setWebpQuality quality prevSettings) = autoSave prevSettings.
Proof.
  split; [|now split].
  cbn [setWebpQuality webpQuality].
  destruct (is_nan quality) eqn:Number.
  - unfold Math_min. rewrite (@compare_nan 100 quality Number).
    reflexivity.
  - destruct (@Math_min_100 quality Number) as [NumberMin Below].
    set (bounded := Math_min 100 quality) in *.
    pose proof (@compare_numbers 0 bounded eq_refl NumberMin) as Comparable.
    unfold Math_max.
    destruct (0 ?= bounded) eqn:C.
    + change (get_sign 0) with false. cbv iota. now split.
    + split; [now apply compare_FLt_leb|exact Below].
    + now split.
    + contradiction.
Qed.

Lemma leb_compare (f1 f2 : float) :
  (f1 <=? f2) = true ->
  ((f1 ?= f2) = FLt \/ (f1 ?= f2) = FEq)
  /\ ((f2 ?= f1) = FGt \/ (f2 ?= f1) = FEq).
Proof.
  rewrite leb_spec, !compare_spec. unfold SFleb.
  rewrite (SFcompare_antisym (Prim2SF f1) (Prim2SF f2)).
  destruct (SFcompare (Prim2SF f1) (Prim2SF f2)) as [[]|];
    try discriminate; cbn; auto.
Qed.

Lemma compare_FEq_eqb (f1 f2 : float) :
  (f1 ?= f2) = FEq -> (f1 =? f2) = true.
Proof.
  rewrite compare_spec, eqb_spec. unfold SFeqb.
  now destruct (SFcompare (Prim2SF f1) (Prim2SF f2)) as [[]|].
Qed.

Lemma leb_eqb_refl (f1 f2 : float) : (f1 <=? f2) = true -> (f1 =? f1) = true.
Proof.
  intros Le. destruct (is_nan f1) eqn:Nan.
  - apply leb_compare in Le as [_ Le].
    rewrite (@compare_nan f2 f1 Nan) in Le. now destruct Le.
  - unfold is_nan in Nan. now destruct (f1 =? f1).
Qed.

(** X15.  A quality that is already between 0 and 100 is stored as it was
    given, up to [===] (a negative zero is stored as zero). *)
Theorem setWebpQuality_valid (quality : float) (prevSettings : AppSettings) :
  (0 <=? quality) = true ->
  (quality <=? 100) = true ->
  (webpQuality (setWebpQuality quality prevSettings) =? quality) = true.
Proof.
  intros Low High. cbn [setWebpQuality webpQuality].
  assert (Refl : (quality =? quality) = true) by exact (leb_eqb_refl High).
  assert (Min : Math_min 100 quality = quality).
  { unfold Math_min. apply leb_compare in High as [_ [C|C]]; rewrite C.
    - reflexivity.
    - now change (get_sign 100) with false. }
  rewrite Min. unfold Math_max.
  apply leb_compare in Low as [[C|C] _]; rewrite C.
  - exact Refl.
  - change (get_sign 0) with false. cbv iota. now apply compare_FEq_eqb.
Qed.

End SettingsProperties.

(** ** The model at work

    The engine's arithmetic is binary64; runs of the model on concrete
    gestures and point arrays. *)

Module Examples.

Local Open Scope float_scope.

Definition pt (px py : float) : Point float :=
  {| x := px; y := py; pressure := None |}.

(** A store whose objects 0, 1, 2, ... are the points of a list. *)
Definition storeOf (objects : list (Point float)) : Reference -> Point float :=
  fun ref => nth ref objects (pt 0 0).

(** [Math.pow] at exponent 2, the only one [simplifyPath] passes:
    the correctly rounded square. *)
Definition square (base exponent : float) : float := base * base.

Definition simplify (objects : list (Point float)) (points : list Reference)
  : list Reference :=
  simplifyPath PrimFloat.sqrt square (storeOf objects) points None.

Definition black : RGBColor float :=
  {| r := 0; g := 0; b := 0; a := Some 1 |}.

Definition start : App float :=
  {| toolState := initialToolSettings; canvasState := initialCanvasState |}.

Definition eraserSelected : App float :=
  handle start (toolChanged (SET_TOOL eraser)).

(** Mid-gesture: a touch and one move, not yet released. *)
Definition drawing : App float :=
  run start [pointerDown 1 1 "q7f3k2a"; pointerMove 2 3].

Definition corner : list (Point float) :=
  [pt 0 0; pt 6 0; pt 12 6; pt 12 12].

Definition jitter : list (Point float) :=
  [pt 0 0; pt 1 0; pt 3 0; pt 3.5 0; pt 3.75 0].

(** One stroke from (0,0) to (10,0) with the initial settings (black,
    width 5), then [undo]. *)
Example stroke_then_undo :
  let drawn :=
    run start [pointerDown 0 0 "k3x9w1z"; pointerMove 10 0; pointerUp float] in
  commands (canvasState drawn) =
    [{| id := "k3x9w1z";
        type := stroke;
        points := Some [pt 0 0; pt 10 0];
        style := Some {| color := black; width := 5; opacity := None |} |}]
  /\ currentCommand (canvasState drawn) = None
  /\ commands (canvasState (handle drawn (undoPressed float))) = [].
Proof. repeat split. Qed.

(** A cancelled gesture commits what it gathered, as a release does. *)
Example cancel_commits :
  canvasState (handle drawing (pointerCancel float)) =
  canvasState (handle drawing (pointerUp float)).
Proof. reflexivity. Qed.

(** Points closer than 2 to the last kept one are dropped; the last
    point is put back. *)
Example simplify_line :
  simplify jitter [0; 1; 2; 3; 4]%nat
  = [0; 2; 4]%nat.
Proof. vm_compute. reflexivity. Qed.

(** The same coordinates in two objects are two elements for [!==]; one
    object met twice is one. *)
Example simplify_distinct_objects :
  simplify [pt 0 0; pt 1 0; pt 0 0] [0; 1; 2]%nat = [0; 2]%nat.
Proof. vm_compute. reflexivity. Qed.

Example simplify_same_object :
  simplify [pt 0 0; pt 1 0] [0; 1; 0]%nat = [0]%nat.
Proof. vm_compute. reflexivity. Qed.

Example smooth_four_points :
  createSmoothPath corner =
  pathData [MoveTo 0 0; QuadTo 0 0 3 0; QuadTo 8 1 9 3; QuadTo 13 8 12 9;
            LineTo 12 12].
Proof. vm_compute. reflexivity. Qed.

(** The same function in exact arithmetic.  [Qplus] and [Qdiv] leave
    fractions unreduced: the control point of the middle segment is
    [1 + (2 - 0) / 6 = 8/6], which binary64 can only round. *)
Example smooth_exact :
  let p (px py : Q) := {| x := px; y := py; pressure := None |} in
  createSmoothPath [p 0 0; p 1 0; p 2 1]%Q =
  pathData [MoveTo 0 0; QuadTo 0 0 (1 # 2) (0 # 2);
            QuadTo (8 # 6) (1 # 6) (3 # 2) (1 # 2); LineTo 2 1]%Q.
Proof. vm_compute. reflexivity. Qed.

End Examples.

(** ** The theorems at concrete inputs *)

(** C6.  The code at an input where it departs from the claim: the
    eraser is selected in the tool bar, no command is current, and a touch
    at (3, 4) installs a command of type [stroke], where a command of type
    [erase] is called for.  [onPanResponderGrant] passes only the colour
    and the size on, and [START_STROKE] has the type written in. *)
Lemma eraser_pointerDown_installs_stroke :
  tool_type (toolState Examples.eraserSelected) = eraser
  /\ currentCommand (canvasState Examples.eraserSelected) = None
  /\ option_map (@type float)
       (currentCommand
          (canvasState
             (handle Examples.eraserSelected
                (pointerDown 3%float 4%float "k3x9w1z")))) = Some stroke
  /\ option_map (@type float)
       (currentCommand
          (canvasState
             (handle Examples.eraserSelected
                (pointerDown 3%float 4%float "k3x9w1z")))) <> Some erase.
Proof.
  repeat split. discriminate.
Qed.

Lemma pointer_events_without_stroke_are_noops_witness :
  canvasReducer (canvasState Examples.start)
    (ADD_POINT (Examples.pt 1 2)) = canvasState Examples.start
  /\ canvasReducer (canvasState Examples.start) END_STROKE =
     canvasState Examples.start
  /\ handle Examples.start (pointerMove 1%float 2%float) = Examples.start
  /\ handle Examples.start (pointerUp float) = Examples.start
  /\ handle Examples.start (pointerCancel float) = Examples.start.
Proof.
  apply (pointer_events_without_stroke_are_noops Examples.start).
  reflexivity.
Defined.

Lemma second_pointerDown_restarts_stroke_witness :
  canvasReducer (canvasState Examples.drawing)
    (START_STROKE "z4m8c1p" (Examples.pt 7 7)
       (snapshot (toolState Examples.drawing))) =
  {| commands := commands (canvasState Examples.drawing);
     currentCommand :=
       Some {| id := "z4m8c1p";
               type := stroke;
               points := Some [Examples.pt 7 7];
               style := Some (snapshot (toolState Examples.drawing)) |};
     scale := scale (canvasState Examples.drawing);
     offset := offset (canvasState Examples.drawing);
     dimensions := dimensions (canvasState Examples.drawing) |}
  /\ canvasState
       (handle Examples.drawing (pointerDown 7%float 7%float "z4m8c1p")) =
     {| commands := commands (canvasState Examples.drawing);
        currentCommand :=
          Some {| id := "z4m8c1p";
                  type := stroke;
                  points := Some [touch 7%float 7%float];
                  style := Some (snapshot (toolState Examples.drawing)) |};
        scale := scale (canvasState Examples.drawing);
        offset := offset (canvasState Examples.drawing);
        dimensions := dimensions (canvasState Examples.drawing) |}.
Proof.
  apply (second_pointerDown_restarts_stroke Examples.drawing
           (previous :=
              {| id := "q7f3k2a";
                 type := stroke;
                 points := Some [Examples.pt 1 1; Examples.pt 2 3];
                 style := Some (snapshot (toolState Examples.start)) |})).
  reflexivity.
Defined.

Lemma simplifyPath_keeps_ends_witness :
  hd_error
    (simplifyPath PrimFloat.sqrt Examples.square
       (Examples.storeOf Examples.jitter) [0; 1; 2; 3; 4] None) =
  hd_error [0; 1; 2; 3; 4]
  /\ (forall d,
        last
          (simplifyPath PrimFloat.sqrt Examples.square
             (Examples.storeOf Examples.jitter) [0; 1; 2; 3; 4] None) d =
        last [0; 1; 2; 3; 4] d)
  /\ length
       (simplifyPath PrimFloat.sqrt Examples.square
          (Examples.storeOf Examples.jitter) [0; 1; 2; 3; 4] None)
     <= length [0; 1; 2; 3; 4]
  /\ (length [0; 1; 2; 3; 4] <= 2 ->
      simplifyPath PrimFloat.sqrt Examples.square
        (Examples.storeOf Examples.jitter) [0; 1; 2; 3; 4] None =
      [0; 1; 2; 3; 4]).
Proof.
  apply (simplifyPath_keeps_ends PrimFloat.sqrt Examples.square
           (Examples.storeOf Examples.jitter) (points := [0; 1; 2; 3; 4]) None).
  discriminate.
Defined.

Lemma createSmoothPath_segments_witness :
  exists segments,
    createSmoothPath Examples.corner = pathData segments
    /\ length segments = S (length Examples.corner)
    /\ (forall p0 p1,
          nth_error Examples.corner 0 = Some p0 ->
          nth_error Examples.corner 1 = Some p1 ->
          nth_error segments 0 = Some (MoveTo (x p0) (y p0))
          /\ nth_error segments 1 =
             Some (QuadTo (x p0) (y p0)
                     ((x p0 + x p1) / lit 2)%js ((y p0 + y p1) / lit 2)%js))
    /\ (forall i before p after,
          1 <= i <= length Examples.corner - 2 ->
          nth_error Examples.corner (i - 1) = Some before ->
          nth_error Examples.corner i = Some p ->
          nth_error Examples.corner (i + 1) = Some after ->
          nth_error segments (i + 1) =
          Some (QuadTo (x p + (x after - x before) / lit 6)%js
                       (y p + (y after - y before) / lit 6)%js
                       ((x p + x after) / lit 2)%js
                       ((y p + y after) / lit 2)%js)).
Proof.
  apply (createSmoothPath_segments Examples.corner).
  cbn. lia.
Defined.

(** ** More runs of the model *)

Module MoreExamples.

Import Examples.

Local Open Scope float_scope.

(** Three points far enough apart for the default tolerance. *)
Definition sparse : list (Point float) := [pt 0 0; pt 3 0; pt 6 4].

(** A committed stroke through [corner], in black, width 5. *)
Definition cornerStroke : DrawCommand float :=
  {| id := "k3x9w1z";
     type := stroke;
     points := Some corner;
     style := Some (snapshot initialToolSettings) |}.

(** The canvas after one stroke through [corner] and one tap. *)
Definition strokeAndTap : App float :=
  run start
    [pointerDown 0 0 "k3x9w1z"; pointerMove 6 0; pointerMove 12 6;
     pointerMove 12 12; pointerUp float; pointerDown 5 5 "t8u2v6b";
     pointerUp float].

Definition render : DrawCommand float -> option (PathProps float) :=
  renderPath PrimFloat.sqrt square.

Example render_cornerStroke :
  render cornerStroke =
  Some {| path_key := Some "k3x9w1z"%string;
          path_d :=
            pathData [MoveTo 0 0; QuadTo 0 0 3 0; QuadTo 8 1 9 3;
                      QuadTo 13 8 12 9; LineTo 12 12];
          path_stroke :=
            [Text "rgba("; Value 0; Text ", "; Value 0; Text ", "; Value 0;
             Text ", "; Value 1; Text ")"];
          path_strokeWidth := 5;
          path_strokeLinecap := "round";
          path_strokeLinejoin := "round";
          path_fill := "none" |}.
Proof. vm_compute. reflexivity. Qed.

(** The tap is in the log, and one path is on the screen. *)
Example strokeAndTap_screen :
  length (commands (canvasState strokeAndTap)) = 2%nat
  /\ renderedPaths PrimFloat.sqrt square (canvasState strokeAndTap) =
     drawn (render cornerStroke).
Proof. vm_compute. split; reflexivity. Qed.

Example setWebpQuality_samples :
  map (fun quality => Settings.webpQuality
                        (Settings.setWebpQuality quality Settings.initialSettings))
    [150; -5; 42.5; neg_zero; infinity; nan] =
  [100; 0; 42.5; 0; 100; nan].
Proof. vm_compute. reflexivity. Qed.

End MoreExamples.

Lemma undo_after_endStroke_witness :
  undo (endStroke (canvasState Examples.drawing)) =
  {| commands := commands (canvasState Examples.drawing);
     currentCommand := None;
     scale := scale (canvasState Examples.drawing);
     offset := offset (canvasState Examples.drawing);
     dimensions := dimensions (canvasState Examples.drawing) |}.
Proof.
  eapply (@undo_after_endStroke float (canvasState Examples.drawing)).
  reflexivity.
Defined.

Lemma simplifyPath_spacing_witness :
  keeps PrimFloat.sqrt Examples.square (Examples.storeOf Examples.jitter)
    (threshold None) 0 2 = true.
Proof.
  apply (@simplifyPath_spacing float float64 PrimFloat.sqrt Examples.square
           (Examples.storeOf Examples.jitter) [0; 1; 2; 3; 4] None 0 0 2).
  - cbn. lia.
  - vm_compute. reflexivity.
  - vm_compute. reflexivity.
  - vm_compute. lia.
Defined.

Lemma simplifyPath_spaced_unchanged_witness :
  simplifyPath PrimFloat.sqrt Examples.square
    (Examples.storeOf MoreExamples.sparse) [0; 1; 2] None = [0; 1; 2].
Proof.
  apply (@simplifyPath_spaced_unchanged float float64 PrimFloat.sqrt
           Examples.square (Examples.storeOf MoreExamples.sparse) 0 [1; 2] None).
  vm_compute. reflexivity.
Defined.

Lemma simplifyPath_distinct_ends_witness :
  2 <= length
         (simplifyPath PrimFloat.sqrt Examples.square
            (Examples.storeOf Examples.jitter) (0 :: [1; 2; 3] ++ [4]) None)
  /\ hd_error
       (simplifyPath PrimFloat.sqrt Examples.square
          (Examples.storeOf Examples.jitter) (0 :: [1; 2; 3] ++ [4]) None) =
     Some 0
  /\ forall d,
       last
         (simplifyPath PrimFloat.sqrt Examples.square
            (Examples.storeOf Examples.jitter) (0 :: [1; 2; 3] ++ [4]) None) d =
       4.
Proof.
  apply (@simplifyPath_distinct_ends float float64 PrimFloat.sqrt
           Examples.square (Examples.storeOf Examples.jitter) 0 [1; 2; 3] 4 None).
  exact (seq_NoDup 5 0).
Defined.

Lemma renderPath_ends_witness :
  exists segments,
    renderPath PrimFloat.sqrt Examples.square MoreExamples.cornerStroke =
    Some {| path_key := Some (id MoreExamples.cornerStroke);
            path_d :=
              pathData
                (MoveTo (x (Examples.pt 0 0)) (y (Examples.pt 0 0))
                 :: segments
                 ++ [LineTo (x (Examples.pt 12 12)) (y (Examples.pt 12 12))]);
            path_stroke :=
              rgbToString (color (snapshot (initialToolSettings (num := float))));
            path_strokeWidth := width (snapshot (initialToolSettings (num := float)));
            path_strokeLinecap := "round";
            path_strokeLinejoin := "round";
            path_fill := "none" |}.
Proof.
  apply (@renderPath_ends float float64 PrimFloat.sqrt Examples.square
           MoreExamples.cornerStroke (Examples.pt 0 0)
           [Examples.pt 6 0; Examples.pt 12 6] (Examples.pt 12 12)
           (snapshot initialToolSettings)).
  - reflexivity.
  - reflexivity.
Defined.

Lemma setWebpQuality_valid_witness :
  PrimFloat.eqb
    (Settings.webpQuality
       (Settings.setWebpQuality 42.5%float Settings.initialSettings))
    42.5%float = true.
Proof.
  apply (@setWebpQuality_valid 42.5%float Settings.initialSettings).
  - reflexivity.
  - reflexivity.
Defined.

Lemma undo_removes_last_path_witness :
  renderedPaths PrimFloat.sqrt Examples.square
    (canvasState MoreExamples.strokeAndTap) =
    flat_map (@drawn float)
      (map (renderPath PrimFloat.sqrt Examples.square)
         [MoreExamples.cornerStroke])
    ++ drawn
         (renderPath PrimFloat.sqrt Examples.square
            {| id := "t8u2v6b";
               type := stroke;
               points := Some [Examples.pt 5 5];
               style := Some (snapshot initialToolSettings) |})
    ++ drawn
         (renderCurrentPath PrimFloat.sqrt Examples.square
            (canvasState MoreExamples.strokeAndTap))
  /\ renderedPaths PrimFloat.sqrt Examples.square
       (undo (canvasState MoreExamples.strokeAndTap)) =
     flat_map (@drawn float)
       (map (renderPath PrimFloat.sqrt Examples.square)
          [MoreExamples.cornerStroke])
     ++ drawn
          (renderCurrentPath PrimFloat.sqrt Examples.square
             (canvasState MoreExamples.strokeAndTap)).
Proof.
  apply (@undo_removes_last_path float float64 PrimFloat.sqrt Examples.square
           (canvasState MoreExamples.strokeAndTap)
           [MoreExamples.cornerStroke]).
  reflexivity.
Defined.

Lemma canvas_ignores_tool_type_witness :
  canvasState
    (run Examples.start
       [pointerDown 1%float 1%float "q7f3k2a"; pointerMove 2%float 3%float;
        pointerUp float]) =
  canvasState
    (run Examples.eraserSelected
       [pointerDown 1%float 1%float "q7f3k2a"; pointerMove 2%float 3%float;
        pointerUp float]).
Proof.
  apply (@canvas_ignores_tool_type float Examples.start Examples.eraserSelected).
  - split; reflexivity.
  - reflexivity.
Defined.
